(** * PitchToMidi: the nearest-MIDI-note search of the ArduinoSound example

    Shallow embedding of [ArduinoSound_Examples/PitchToMidi/PitchToMidi.ino]:
    the scan of [findMidiNoteFromPitches] and the loudest-band scan of [loop].

    Data as the sketch has it:
    - [int] values are [Z].  The arithmetic of the scan ([lowPitch - entry],
      [abs]) is exact for table entries of type [uint16_t] and
      [|lowPitch| < 2^31 - 2^16]; outside that range the C code has undefined
      behaviour (signed overflow), which is not modelled.
    - the MIDIUSB table [pitchFrequency] (an external [uint16_t] array) is a
      parameter [list Z], read at index [x] with [nth x t 0].
    - the [float] band edges of [loop] are rationals: [b * 8400.0f / 128] is
      exact in binary32 for [b < 64], and the [float -> int] conversion at the
      call truncates toward zero ([Z.quot]).
    - [Serial.println] is modelled as an output trace (list of printed values). *)

From Stdlib Require Import ZArith List Lia QArith Bool.
From Stdlib Require String.
Import String.StringSyntax.
Delimit Scope string_scope with string.
Import ListNotations.
Open Scope Z_scope.

(** ** The sketch's constants *)

Definition sampleRate : Z := 8400.
Definition fftSize : Z := 128.
Definition spectrumSize : Z := fftSize / 2.
Definition threshold : Z := 150000.

(** ** [findMidiNoteFromPitches] *)

(** Local state of the scan: the loop variable [x], [lastDiff],
    [desiredMidiNote], and what the body printed so far. *)
Record scan_state := mk_scan {
  x : Z;
  lastDiff : Z;
  desiredMidiNote : Z;
  printed : list Z
}.

(** [int lastDiff = 32000; int desiredMidiNote = -1; int x = 0] *)
Definition scan_init : scan_state := mk_scan 0 32000 (-1) [].

(** One execution of the loop body, followed by [x++]. *)
Definition scan_body (pitchFrequency : list Z) (lowPitch highPitch : Z)
    (st : scan_state) : scan_state :=
  let p := nth (Z.to_nat (x st)) pitchFrequency 0 in
  (* if (pitchFrequency[x] >= lowPitch && pitchFrequency[x] <= highPitch)
       Serial.println(pitchFrequency[x]); *)
  let out := if (lowPitch <=? p) && (p <=? highPitch)
             then printed st ++ [p] else printed st in
  (* int diff = abs(lowPitch - pitchFrequency[x]); *)
  let diff := Z.abs (lowPitch - p) in
  (* if (diff < lastDiff) desiredMidiNote = x; *)
  let note := if diff <? lastDiff st then x st else desiredMidiNote st in
  (* lastDiff = diff; *)
  mk_scan (x st + 1) diff note out.

(** [for (; x < 127; x++) body], run with [fuel] condition checks at most. *)
Fixpoint scan_loop (pitchFrequency : list Z) (lowPitch highPitch : Z)
    (fuel : nat) (st : scan_state) : scan_state :=
  match fuel with
  | O => st
  | S f =>
      if x st <? 127
      then scan_loop pitchFrequency lowPitch highPitch f
             (scan_body pitchFrequency lowPitch highPitch st)
      else st
  end.

(** The whole call: the final loop state (127 iterations suffice, see
    [C8]); the returned value is [desiredMidiNote]. *)
Definition findMidiNoteFromPitches_run (pitchFrequency : list Z)
    (lowPitch highPitch : Z) : scan_state :=
  scan_loop pitchFrequency lowPitch highPitch 127 scan_init.

Definition findMidiNoteFromPitches (pitchFrequency : list Z)
    (lowPitch highPitch : Z) : Z :=
  desiredMidiNote (findMidiNoteFromPitches_run pitchFrequency lowPitch highPitch).

(** ** The float-to-int conversion at the call site *)

(** C/C++ [float -> int] conversion: truncation toward zero. *)
Definition float_to_int (q : Q) : Z := Z.quot (Qnum q) (Zpos (Qden q)).

(** [int closestNote = findMidiNoteFromPitches(freqLow, freqHigh);] *)
Definition closestNote (pitchFrequency : list Z) (freqLow freqHigh : Q) : Z :=
  findMidiNoteFromPitches pitchFrequency (float_to_int freqLow)
    (float_to_int freqHigh).

(** ** The loudest-band scan of [loop] *)

(** [(b * float(sampleRate)) / fftSize] and [((b + 1) * float(sampleRate)) / fftSize] *)
Definition band_low (b : Z) : Q := inject_Z (b * sampleRate) / inject_Z fftSize.
Definition band_high (b : Z) : Q := inject_Z ((b + 1) * sampleRate) / inject_Z fftSize.

Record band_state := mk_band {
  loudestSample : Z;
  freqLow : Q;
  freqHigh : Q
}.

(** [int loudestSample = 0; float freqLow = 0; float freqHigh = 0;] *)
Definition band_init : band_state := mk_band 0 0 0.

(** [if (spectrum[b] >= loudestSample) { ... }] *)
Definition band_body (spectrum : list Z) (st : band_state) (b : nat) : band_state :=
  let s := nth b spectrum 0 in
  if loudestSample st <=? s
  then mk_band s (band_low (Z.of_nat b)) (band_high (Z.of_nat b))
  else st.

(** [for (int b = 0; b < spectrumSize; b++)] *)
Definition loudest_band (spectrum : list Z) : band_state :=
  fold_left (band_body spectrum) (seq 0 (Z.to_nat spectrumSize)) band_init.

(** What one pass of [loop] reports when an analysis is available: nothing
    below the threshold, otherwise the band edges, the amplitude and the
    closest note. *)
Definition loop_report (pitchFrequency spectrum : list Z) : option (Q * Q * Z * Z) :=
  let st := loudest_band spectrum in
  if threshold <? loudestSample st
  then Some (freqLow st, freqHigh st, loudestSample st,
             closestNote pitchFrequency (freqLow st) (freqHigh st))
  else None.

(** ** [setup] *)

(** A line of serial output: text, or a band [freqLow - freqHigh]. *)
Inductive serial_line :=
  | Text (s : String.string)
  | Band (lo hi : Q).

(** [setup()], given whether [AudioInI2S.begin] and [fftAnalyzer.input]
    succeed; the boolean says whether [setup] returns (a failure ends in
    [while (true);]).  [while (!Serial);] and [delay(5000)] are not modelled. *)
Definition setup (i2s_ok analyzer_ok : bool) : list serial_line * bool :=
  if negb i2s_ok then ([Text "Failed to initialize I2S input"%string], false)
  else if negb analyzer_ok then ([Text "Failed to set FFT analyzer input"%string], false)
  else (Text "Frequency bands: "%string
          :: map (fun b => Band (band_low (Z.of_nat b)) (band_high (Z.of_nat b)))
                 (seq 0 (Z.to_nat spectrumSize))
          ++ [Text String.EmptyString], true).

(** ** Reference data *)

(** The MIDIUSB library's [pitchFrequency] table, MIDI notes 0..127: the
    equal-tempered pitch in Hz rounded to an integer. *)
Definition pitchFrequency : list Z :=
  [8; 9; 9; 10; 10; 11; 12; 12; 13; 14; 15; 15; 16; 17; 18; 19; 21; 22; 23; 24;
   26; 28; 29; 31; 33; 35; 37; 39; 41; 44; 46; 49; 52; 55; 58; 62; 65; 69; 73;
   78; 82; 87; 92; 98; 104; 110; 117; 123; 131; 139; 147; 156; 165; 175; 185;
   196; 208; 220; 233; 247; 262; 277; 294; 311; 330; 349; 370; 392; 415; 440;
   466; 494; 523; 554; 587; 622; 659; 698; 740; 784; 831; 880; 932; 988; 1047;
   1109; 1175; 1245; 1319; 1397; 1480; 1568; 1661; 1760; 1865; 1976; 2093; 2217;
   2349; 2489; 2637; 2794; 2960; 3136; 3322; 3520; 3729; 3951; 4186; 4435; 4699;
   4978; 5274; 5588; 5920; 6272; 6645; 7040; 7459; 7902; 8372; 8870; 9397; 9956;
   10548; 11175; 11840; 12544].

(** The table of the spec's first scenario: [0, 100, ..., 12600]. *)
Definition step100_table : list Z := map (fun n => 100 * Z.of_nat n) (seq 0 127).

Example pitchFrequency_length : length pitchFrequency = 128%nat.
Proof. reflexivity. Qed.

Example scenario1 : findMidiNoteFromPitches step100_table 250 260 = 2.
Proof. vm_compute. reflexivity. Qed.

Example scenario2 : findMidiNoteFromPitches step100_table 0 0 = 0.
Proof. vm_compute. reflexivity. Qed.

Example a440 : findMidiNoteFromPitches pitchFrequency 440 446 = 69.
Proof. vm_compute. reflexivity. Qed.

(** ** Per-index view of the scan *)

Section Scan.
Variables (t : list Z) (lowPitch highPitch : Z).

(** [abs(lowPitch - pitchFrequency[i])] *)
Definition diffAt (i : nat) : Z := Z.abs (lowPitch - nth i t 0).

(** The value [lastDiff] holds when iteration [i] compares: the initial
    32000 for [i = 0], the previous iteration's difference afterwards. *)
Definition prevDiff (i : nat) : Z :=
  match i with O => 32000 | S k => diffAt k end.

(** Iteration [i] assigns [desiredMidiNote = i]. *)
Definition drop (i : nat) : bool := diffAt i <? prevDiff i.

(** The last index [< k] whose iteration assigned [desiredMidiNote], or -1. *)
Fixpoint last_drop (k : nat) : Z :=
  match k with
  | O => -1
  | S k' => if drop k' then Z.of_nat k' else last_drop k'
  end.

(** The values printed by the first [k] iterations. *)
Definition in_band (p : Z) : bool := (lowPitch <=? p) && (p <=? highPitch).
Definition printed_upto (k : nat) : list Z :=
  filter in_band (map (fun i => nth i t 0) (seq 0 k)).

Lemma scan_loop_add : forall k m st,
  (Z.to_nat (x st) + k <= 127)%nat -> 0 <= x st ->
  scan_loop t lowPitch highPitch (k + m) st =
  scan_loop t lowPitch highPitch m (Nat.iter k (scan_body t lowPitch highPitch) st).
Proof.
  induction k as [|k IH]; intros m st Hk Hx; [reflexivity|].
  cbn [scan_loop Nat.add]. replace (x st <? 127) with true by (symmetry; apply Z.ltb_lt; lia).
  rewrite IH by (unfold scan_body; cbn; lia).
  rewrite <- Nat.iter_succ_r. reflexivity.
Qed.

Lemma scan_loop_iter : forall k st,
  (Z.to_nat (x st) + k <= 127)%nat -> 0 <= x st ->
  scan_loop t lowPitch highPitch k st = Nat.iter k (scan_body t lowPitch highPitch) st.
Proof.
  intros k st Hk Hx. rewrite <- (Nat.add_0_r k) at 1.
  rewrite scan_loop_add by assumption. reflexivity.
Qed.

(** Once [x = 127] the loop condition fails: further fuel changes nothing. *)
Lemma scan_loop_exit : forall m st,
  x st = 127 -> scan_loop t lowPitch highPitch m st = st.
Proof. intros [|m] st Hx; [reflexivity|]. cbn. rewrite Hx. reflexivity. Qed.

Lemma iter_state : forall k,
  Nat.iter k (scan_body t lowPitch highPitch) scan_init =
  mk_scan (Z.of_nat k) (prevDiff k) (last_drop k) (printed_upto k).
Proof.
  induction k as [|k IH]; [reflexivity|].
  rewrite Nat.iter_succ, IH. unfold scan_body; cbn [x lastDiff desiredMidiNote printed].
  rewrite Nat2Z.id. unfold printed_upto.
  rewrite seq_S, map_app, filter_app. cbn [map filter last_drop].
  unfold drop, diffAt, in_band. f_equal; try lia.
  all: try (destruct (_ <? _); reflexivity).
  all: destruct (_ && _); [reflexivity|]; rewrite app_nil_r; reflexivity.
Qed.

Lemma run_state :
  findMidiNoteFromPitches_run t lowPitch highPitch =
  mk_scan 127 (prevDiff 127) (last_drop 127) (printed_upto 127).
Proof.
  unfold findMidiNoteFromPitches_run.
  rewrite scan_loop_iter by (cbn; lia). apply iter_state.
Qed.

Lemma find_last_drop :
  findMidiNoteFromPitches t lowPitch highPitch = last_drop 127.
Proof. unfold findMidiNoteFromPitches. rewrite run_state. reflexivity. Qed.

End Scan.

Lemma last_drop_range : forall t l k,
  last_drop t l k = -1 \/ (0 <= last_drop t l k < Z.of_nat k).
Proof.
  intros t l k. induction k as [|k IH]; cbn [last_drop]; [left; reflexivity|].
  destruct (drop t l k); [right; lia|]. destruct IH; [left|right]; lia.
Qed.

(** [last_drop k] is -1 when no iteration below [k] assigned, otherwise the
    last iteration that did. *)
Lemma last_drop_spec : forall t l k,
  (last_drop t l k = -1 /\ forall i, (i < k)%nat -> drop t l i = false) \/
  (exists i, (i < k)%nat /\ last_drop t l k = Z.of_nat i /\ drop t l i = true /\
     forall j, (i < j < k)%nat -> drop t l j = false).
Proof.
  intros t l k. induction k as [|k IH]; cbn [last_drop].
  - left. split; [reflexivity | intros; lia].
  - destruct (drop t l k) eqn:Hd.
    + right. exists k. repeat split; auto; intros; lia.
    + destruct IH as [[H1 H2] | (i & Hi & H1 & H2 & H3)].
      * left. split; [assumption|]. intros i Hi.
        destruct (Nat.eq_dec i k); [subst; assumption | apply H2; lia].
      * right. exists i. split; [lia|]. split; [assumption|]. split; [assumption|].
        intros j Hj. destruct (Nat.eq_dec j k); [subst; assumption | apply H3; lia].
Qed.

(** The candidate after iteration [k] is [k] exactly when iteration [k]
    assigned it. *)
Lemma recorded_iff : forall t l h k,
  desiredMidiNote (Nat.iter (S k) (scan_body t l h) scan_init) = Z.of_nat k <->
  drop t l k = true.
Proof.
  intros t l h k. rewrite iter_state. cbn [desiredMidiNote last_drop].
  destruct (drop t l k); split; intros H; auto; try discriminate.
  destruct (last_drop_range t l k); lia.
Qed.

(** ** Tables in ascending order *)

(** Non-decreasing entries, as the spec's data model assumes. *)
Definition sorted_table (t : list Z) : Prop :=
  forall i j, (i <= j)%nat -> (j < length t)%nat -> nth i t 0 <= nth j t 0.

Fixpoint nondecreasing (t : list Z) : bool :=
  match t with
  | a :: (b :: _) as r => (a <=? b) && nondecreasing r
  | _ => true
  end.

Lemma nondecreasing_head : forall a r j,
  nondecreasing (a :: r) = true -> (j < length r)%nat -> a <= nth j r 0.
Proof.
  intros a r. revert a. induction r as [|b r IH]; intros a j H Hj; [cbn in Hj; lia|].
  cbn in H. apply andb_true_iff in H as [Hab Hr]. apply Z.leb_le in Hab.
  destruct j as [|j]; [exact Hab|]. cbn in Hj |- *.
  specialize (IH b j Hr ltac:(lia)). lia.
Qed.

Lemma nondecreasing_sorted : forall t, nondecreasing t = true -> sorted_table t.
Proof.
  induction t as [|a r IH]; intros H i j Hij Hj; [cbn in Hj; lia|].
  assert (Hr : nondecreasing r = true)
    by (destruct r; [reflexivity | cbn in H; apply andb_true_iff in H; tauto]).
  cbn in Hj. destruct i as [|i], j as [|j]; cbn; try lia.
  - apply nondecreasing_head; [assumption | lia].
  - apply IH; [assumption | lia | lia].
Qed.

Lemma pitchFrequency_sorted : sorted_table pitchFrequency.
Proof. apply nondecreasing_sorted. vm_compute. reflexivity. Qed.

(** ** The loudest-band scan *)

Section Bands.
Variable spectrum : list Z.

(** An invariant of every band state reached by the scan. *)
Lemma band_fold_inv : forall (P : band_state -> Prop) l st,
  P st ->
  (forall b, In b l -> P (mk_band (nth b spectrum 0) (band_low (Z.of_nat b))
                                 (band_high (Z.of_nat b)))) ->
  P (fold_left (band_body spectrum) l st).
Proof.
  intros P l. induction l as [|b l IH]; intros st Hst Hl; [exact Hst|].
  cbn [fold_left]. apply IH; [|intros; apply Hl; right; assumption].
  unfold band_body. destruct (_ <=? _); [apply Hl; left; reflexivity | exact Hst].
Qed.

(** Bands quieter than the current loudest leave the state unchanged. *)
Lemma band_fold_keep : forall l st,
  (forall b, In b l -> nth b spectrum 0 < loudestSample st) ->
  fold_left (band_body spectrum) l st = st.
Proof.
  induction l as [|b l IH]; intros st Hl; [reflexivity|].
  cbn [fold_left]. unfold band_body at 2.
  replace (loudestSample st <=? nth b spectrum 0) with false
    by (symmetry; apply Z.leb_gt; apply Hl; left; reflexivity).
  apply IH. intros; apply Hl; right; assumption.
Qed.

Lemma loudest_band_sample : forall l,
  loudestSample (fold_left (band_body spectrum) l band_init) = 0 \/
  exists b, In b l /\ loudestSample (fold_left (band_body spectrum) l band_init) = nth b spectrum 0.
Proof.
  intros l. apply (band_fold_inv (fun st => loudestSample st = 0 \/
    exists b, In b l /\ loudestSample st = nth b spectrum 0)); [left; reflexivity|].
  intros b Hb. right. exists b. split; [assumption | reflexivity].
Qed.

Lemma loudest_band_freqLow :
  freqLow (loudest_band spectrum) = 0%Q \/
  exists b, (b < 64)%nat /\ freqLow (loudest_band spectrum) = band_low (Z.of_nat b).
Proof.
  unfold loudest_band. apply band_fold_inv; [left; reflexivity|].
  intros b Hb. right. exists b. split; [|reflexivity].
  apply in_seq in Hb. change (Z.to_nat spectrumSize) with 64%nat in Hb. lia.
Qed.

End Bands.

(** The truncated low edge of band [b < 64] is at most 4134. *)
Lemma band_low_int : forall b, (b < 64)%nat ->
  0 <= float_to_int (band_low (Z.of_nat b)) <= 4134.
Proof.
  intros b Hb. unfold float_to_int, band_low, sampleRate, fftSize. cbn [Qnum Qden Qdiv Qmult Qinv inject_Z].
  rewrite Z.mul_1_r. rewrite Z.quot_div_nonneg by lia.
  split; [apply Z.div_pos; lia|].
  change 4134 with ((63 * 8400) / 128). apply Z.div_le_mono; lia.
Qed.

Lemma last_drop_S : forall t l k,
  last_drop t l (S k) = if drop t l k then Z.of_nat k else last_drop t l k.
Proof. reflexivity. Qed.

Lemma find_highPitch_irrelevant : forall t l h1 h2,
  findMidiNoteFromPitches t l h1 = findMidiNoteFromPitches t l h2.
Proof. intros. rewrite !find_last_drop. reflexivity. Qed.

Lemma first_iteration_records : forall t l h,
  Z.abs (l - nth 0 t 0) < 32000 -> findMidiNoteFromPitches t l h <> -1.
Proof.
  intros t l h Hl. rewrite find_last_drop.
  destruct (last_drop_spec t l 127) as [[_ H2] | (i & _ & H1 & _)]; [|lia].
  specialize (H2 0%nat ltac:(lia)). unfold drop, prevDiff, diffAt in H2.
  apply Z.ltb_nlt in H2. contradiction.
Qed.

(** ** The scan the spec describes *)



(** A 127-entry table whose differences to 10 are [1, 10, 5, 990, ...]. *)
Definition drop_table : list Z := [9; 20; 15] ++ repeat 1000 124.

Example drop_table_length : length drop_table = 127%nat.
Proof. reflexivity. Qed.

(** ** Claims *)


(** C3: every iteration leaves [lastDiff] equal to its own difference;
    iteration [k] records [k] exactly when its difference is below the
    previous iteration's (below 32000 for [k = 0]); the result is the last
    such index, or -1 when there is none; and for some table the result is
    not an index of minimal difference (on [drop_table]). *)
Theorem find_is_last_strict_drop :
  (forall t l h k, (k < 127)%nat ->
     lastDiff (Nat.iter (S k) (scan_body t l h) scan_init) = diffAt t l k /\
     (desiredMidiNote (Nat.iter (S k) (scan_body t l h) scan_init) = Z.of_nat k <->
      diffAt t l k < prevDiff t l k)) /\
  (forall t l h,
     (findMidiNoteFromPitches t l h = -1 /\
      forall i, (i < 127)%nat -> ~ diffAt t l i < prevDiff t l i) \/
     (exists i, (i < 127)%nat /\ findMidiNoteFromPitches t l h = Z.of_nat i /\
        diffAt t l i < prevDiff t l i /\
        forall j, (i < j < 127)%nat -> ~ diffAt t l j < prevDiff t l j)) /\
  (exists t l h i, (i < 127)%nat /\
     diffAt t l i < diffAt t l (Z.to_nat (findMidiNoteFromPitches t l h))).
Proof.
  split; [|split].
  - intros t l h k _. split.
    + rewrite iter_state. reflexivity.
    + rewrite recorded_iff. unfold drop. apply Z.ltb_lt.
  - intros t l h. rewrite find_last_drop.
    destruct (last_drop_spec t l 127) as [[H1 H2] | (i & Hi & H1 & H2 & H3)].
    + left. split; [assumption|]. intros i Hi Hlt.
      specialize (H2 i Hi). unfold drop in H2. apply Z.ltb_nlt in H2. contradiction.
    + right. exists i. split; [assumption|]. split; [assumption|]. split.
      * apply Z.ltb_lt. exact H2.
      * intros j Hj Hlt. specialize (H3 j Hj). unfold drop in H3.
        apply Z.ltb_nlt in H3. contradiction.
  - exists drop_table, 10, 10, 0%nat. split; [lia|]. vm_compute. reflexivity.
Qed.

(** C5: the result is -1 or an index in [0, 126]. *)
Theorem find_result_range : forall t l h,
  findMidiNoteFromPitches t l h = -1 \/
  (0 <= findMidiNoteFromPitches t l h <= 126).
Proof.
  intros t l h. rewrite find_last_drop.
  destruct (last_drop_range t l 127); [left | right]; lia.
Qed.

(** C6: [highPitch] does not influence the returned note. *)
Theorem find_ignores_highPitch : forall t l h1 h2,
  findMidiNoteFromPitches t l h1 = findMidiNoteFromPitches t l h2.
Proof. intros. rewrite !find_last_drop. reflexivity. Qed.

(** C4 (corrected): -1 is returned only when no iteration records a
    candidate; the first iteration records whenever
    [|lowPitch - pitchFrequency[0]| < 32000], so then the result is never
    -1, and this covers every note [loop] computes with the pitch table. *)
Theorem find_not_sentinel_near_first_entry : forall t l h,
  Z.abs (l - nth 0 t 0) < 32000 -> findMidiNoteFromPitches t l h <> -1.
Proof.
  intros t l h Hl. rewrite find_last_drop.
  destruct (last_drop_spec t l 127) as [[_ H2] | (i & _ & H1 & _)]; [|lia].
  specialize (H2 0%nat ltac:(lia)). unfold drop, prevDiff, diffAt in H2.
  apply Z.ltb_nlt in H2. contradiction.
Qed.

Lemma loop_note_not_sentinel : forall spectrum fl fh a n,
  loop_report pitchFrequency spectrum = Some (fl, fh, a, n) -> n <> -1.
Proof.
  intros spectrum fl fh a n. unfold loop_report.
  destruct (threshold <? _); intros H; [|discriminate].
  apply (f_equal (fun o => match o with Some (_, _, _, m) => m | None => 0 end)) in H.
  cbv beta iota in H. subst n. unfold closestNote.
  apply first_iteration_records. change (nth 0 pitchFrequency 0) with 8.
  destruct (loudest_band_freqLow spectrum) as [-> | (b & Hb & ->)].
  - reflexivity.
  - pose proof (band_low_int b Hb). lia.
Qed.

Lemma find_not_sentinel_witness :
  Z.abs (440 - nth 0 pitchFrequency 0) < 32000 /\
  findMidiNoteFromPitches pitchFrequency 440 446 <> -1.
Proof.
  split; [reflexivity|].
  apply (find_not_sentinel_near_first_entry pitchFrequency 440 446). reflexivity.
Defined.

(** C4, counterexample: with the ascending, non-negative pitch table and
    [lowBound = -100000] every difference is at least 32000 and none drops
    below its predecessor, so the call returns -1. *)
Lemma find_sentinel_far_below :
  findMidiNoteFromPitches pitchFrequency (-100000) (-99000) = -1.
Proof. vm_compute. reflexivity. Qed.

(** C7: for a table ascending up to its entry 126 and below [10^9],
    [lowBound = 10^9] gives 126, the unique index of smallest difference. *)
Theorem find_far_above_table : forall t h,
  (127 <= length t)%nat -> sorted_table t ->
  nth 125 t 0 < nth 126 t 0 -> nth 126 t 0 < 1000000000 ->
  findMidiNoteFromPitches t 1000000000 h = 126 /\
  forall i, (i < 127)%nat -> i <> 126%nat ->
    diffAt t 1000000000 126 < diffAt t 1000000000 i.
Proof.
  intros t h Hlen Hs H125 H126. split.
  - rewrite find_last_drop, last_drop_S.
    replace (drop t 1000000000 126) with true; [reflexivity|].
    symmetry. unfold drop, prevDiff, diffAt. apply Z.ltb_lt. lia.
  - intros i Hi Hne. assert (nth i t 0 <= nth 125 t 0) by (apply Hs; lia).
    unfold diffAt. lia.
Qed.

Lemma find_far_above_table_witness :
  findMidiNoteFromPitches pitchFrequency 1000000000 1000000000 = 126.
Proof.
  apply (find_far_above_table pitchFrequency 1000000000);
    [cbn; lia | exact pitchFrequency_sorted | reflexivity | reflexivity].
Defined.

(** C8, counterexample: the call performs I/O; with [lowPitch = 440] and
    [highPitch = 446] it prints the entry 440. *)
Lemma find_prints :
  printed (findMidiNoteFromPitches_run pitchFrequency 440 446) = [440].
Proof. vm_compute. reflexivity. Qed.

(** C8 (corrected): the loop exits through its condition with [x = 127]
    after 127 iterations (more fuel changes nothing), and its only output
    is the table entries among the first 127 that lie in
    [[lowPitch, highPitch]], in index order. *)
Theorem find_terminates_printing_band : forall t l h,
  x (findMidiNoteFromPitches_run t l h) = 127 /\
  (forall fuel, (127 <= fuel)%nat ->
     scan_loop t l h fuel scan_init = findMidiNoteFromPitches_run t l h) /\
  printed (findMidiNoteFromPitches_run t l h) = printed_upto t l h 127.
Proof.
  intros t l h. rewrite run_state. split; [reflexivity|]. split; [|reflexivity].
  intros fuel Hf. replace fuel with (127 + (fuel - 127))%nat by lia.
  rewrite scan_loop_add by (cbn; lia). rewrite iter_state.
  apply scan_loop_exit. reflexivity.
Qed.

(** C9: the bounds are [int]: [loop]'s float band edges lose their
    fractional part at the call (65.625 becomes 65), two bounds with the same
    truncation give the same note, differences are whole numbers (so two that
    differ by less than 1 are equal), and on an ascending table a later entry
    whose difference equals an earlier one's never becomes the candidate. *)
Theorem closestNote_truncates : forall t,
  (127 <= length t)%nat -> sorted_table t ->
  float_to_int (band_low 1) = 65 /\
  (forall f1 f2 g1 g2, float_to_int f1 = float_to_int f2 ->
     closestNote t f1 g1 = closestNote t f2 g2) /\
  (forall l h i j, (i < j < 127)%nat ->
     Z.abs (diffAt t l i - diffAt t l j) < 1 ->
     diffAt t l i = diffAt t l j /\
     desiredMidiNote (Nat.iter (S j) (scan_body t l h) scan_init) <> Z.of_nat j).
Proof.
  intros t Hlen Hs. split; [reflexivity|]. split.
  - intros f1 f2 g1 g2 Hf. unfold closestNote. rewrite Hf.
    apply find_highPitch_irrelevant.
  - intros l h i j Hij Hd. assert (Heq : diffAt t l i = diffAt t l j) by lia.
    split; [exact Heq|]. rewrite recorded_iff.
    destruct j as [|j]; [lia|]. unfold drop, prevDiff.
    assert (nth i t 0 <= nth j t 0) by (apply Hs; lia).
    assert (nth j t 0 <= nth (S j) t 0) by (apply Hs; lia).
    intros Hlt. apply Z.ltb_lt in Hlt. unfold diffAt in *. lia.
Qed.

Lemma closestNote_truncates_witness :
  closestNote pitchFrequency (21 # 2) 0 = closestNote pitchFrequency 10 0.
Proof.
  apply (closestNote_truncates pitchFrequency ltac:(cbn; lia) pitchFrequency_sorted).
  reflexivity.
Defined.

(** C10: the [>=] comparison lets the last band of maximal (non-negative)
    amplitude supply [freqLow] and [freqHigh]; an all-zero spectrum reports
    band 63. *)
Theorem loudest_band_last_max :
  (forall spectrum b, (b < 64)%nat -> 0 <= nth b spectrum 0 ->
     (forall b', (b' < 64)%nat -> nth b' spectrum 0 <= nth b spectrum 0) ->
     (forall b', (b < b' < 64)%nat -> nth b' spectrum 0 < nth b spectrum 0) ->
     loudest_band spectrum =
     mk_band (nth b spectrum 0) (band_low (Z.of_nat b)) (band_high (Z.of_nat b))) /\
  loudest_band (repeat 0 64%nat) = mk_band 0 (band_low 63) (band_high 63).
Proof.
  split; [|reflexivity].
  intros s b Hb H0 Hmax Hlast. unfold loudest_band.
  change (Z.to_nat spectrumSize) with 64%nat.
  replace 64%nat with (b + S (63 - b))%nat by lia.
  rewrite seq_app, fold_left_app. cbn [Nat.add seq fold_left].
  assert (Hpre : loudestSample (fold_left (band_body s) (seq 0 b) band_init)
                 <= nth b s 0).
  { destruct (loudest_band_sample s (seq 0 b)) as [-> | (i & Hi & ->)]; [lia|].
    apply in_seq in Hi. apply Hmax. lia. }
  unfold band_body at 2. apply Z.leb_le in Hpre. rewrite Hpre.
  apply band_fold_keep. intros b' Hb'. apply in_seq in Hb'. cbn [loudestSample].
  apply Hlast. lia.
Qed.

Lemma loudest_band_last_max_witness :
  loudest_band (repeat 0 63%nat ++ [7]) = mk_band 7 (band_low 63) (band_high 63).
Proof.
  apply (proj1 loudest_band_last_max (repeat 0 63%nat ++ [7]) 63%nat);
    [lia | cbn; lia | | ].
  - intros b' Hb'. destruct (Nat.lt_ge_cases b' 63) as [Hlt | Hge].
    + rewrite app_nth1 by (rewrite repeat_length; lia). rewrite nth_repeat. cbn. lia.
    + replace b' with 63%nat by lia. cbn. lia.
  - intros b' Hb'. lia.
Defined.

Lemma find_is_last_strict_drop_witness :
  desiredMidiNote (Nat.iter 3 (scan_body drop_table 10 10) scan_init) = 2 <->
  diffAt drop_table 10 2 < prevDiff drop_table 10 2.
Proof. apply (proj1 find_is_last_strict_drop drop_table 10 10 2%nat). lia. Defined.

(** ** Further properties of the sketch *)

(** Index [i] is the first of the 127 scanned entries closest to [l]. *)
Definition first_nearest (t : list Z) (l : Z) (i : nat) : Prop :=
  (i < 127)%nat /\
  (forall j, (j < 127)%nat -> diffAt t l i <= diffAt t l j) /\
  (forall j, (j < i)%nat -> diffAt t l i < diffAt t l j).

Lemma no_drop_after : forall t l i,
  (forall j, (i < j < 127)%nat -> drop t l j = false) ->
  forall k, (i + k < 127)%nat -> diffAt t l i <= diffAt t l (i + k).
Proof.
  intros t l i Hnd k. induction k as [|k IH]; intros Hk.
  - rewrite Nat.add_0_r. lia.
  - specialize (Hnd (i + S k)%nat ltac:(lia)). rewrite Nat.add_succ_r in *.
    unfold drop, prevDiff in Hnd. apply Z.ltb_ge in Hnd.
    specialize (IH ltac:(lia)). lia.
Qed.

Lemma drop_beats_earlier : forall t l i,
  sorted_table t -> (127 <= length t)%nat -> (i < 127)%nat ->
  drop t l i = true -> forall j, (j < i)%nat -> diffAt t l i < diffAt t l j.
Proof.
  intros t l [|i] Hs Hlen Hi Hd j Hj; [lia|].
  unfold drop, prevDiff in Hd. apply Z.ltb_lt in Hd.
  assert (nth j t 0 <= nth i t 0) by (apply Hs; lia).
  assert (nth i t 0 <= nth (S i) t 0) by (apply Hs; lia).
  unfold diffAt in *. lia.
Qed.

(** On an ascending table, and with [|l - t[0]| < 32000], the scan returns
    the first index of minimal difference. *)
Lemma first_nearest_of_sorted : forall t l h,
  sorted_table t -> (127 <= length t)%nat -> Z.abs (l - nth 0 t 0) < 32000 ->
  exists i, findMidiNoteFromPitches t l h = Z.of_nat i /\ first_nearest t l i.
Proof.
  intros t l h Hs Hlen Hl. rewrite find_last_drop.
  destruct (last_drop_spec t l 127) as [[_ H2] | (i & Hi & H1 & H2 & H3)].
  - specialize (H2 0%nat ltac:(lia)). unfold drop, prevDiff, diffAt in H2.
    apply Z.ltb_nlt in H2. contradiction.
  - exists i. split; [exact H1|]. split; [exact Hi|]. split.
    + intros j Hj. destruct (Nat.lt_ge_cases j i) as [Hji | Hji].
      * pose proof (drop_beats_earlier t l i Hs Hlen Hi H2 j Hji). lia.
      * replace j with (i + (j - i))%nat by lia. apply no_drop_after; [exact H3 | lia].
    + apply drop_beats_earlier; assumption.
Qed.

(** The first nearest index does not decrease when the pitch grows. *)
Lemma first_nearest_mono : forall t l1 l2 i1 i2,
  sorted_table t -> (127 <= length t)%nat -> l1 <= l2 ->
  first_nearest t l1 i1 -> first_nearest t l2 i2 -> (i1 <= i2)%nat.
Proof.
  intros t l1 l2 i1 i2 Hs Hlen Hl [Hi1 [_ Hf1]] [Hi2 [Hm2 _]].
  destruct (Nat.le_gt_cases i1 i2) as [|Hlt]; [assumption|].
  specialize (Hf1 i2 Hlt). specialize (Hm2 i1 Hi1).
  assert (nth i2 t 0 <= nth i1 t 0) by (apply Hs; lia).
  unfold diffAt in *. lia.
Qed.

(** [findMidiNoteFromPitches] returns the note closest to lowPitch on an
    ascending table (X1). *)
Theorem find_nearest_on_sorted_table : forall t l h,
  sorted_table t -> (127 <= length t)%nat -> Z.abs (l - nth 0 t 0) < 32000 ->
  exists i, findMidiNoteFromPitches t l h = Z.of_nat i /\
    (i < 127)%nat /\
    (forall j, (j < 127)%nat -> diffAt t l i <= diffAt t l j) /\
    (forall j, (j < i)%nat -> diffAt t l i < diffAt t l j).
Proof. intros t l h Hs Hlen Hl. exact (first_nearest_of_sorted t l h Hs Hlen Hl). Qed.

Lemma find_nearest_on_sorted_table_witness :
  exists i, findMidiNoteFromPitches pitchFrequency 445 450 = Z.of_nat i /\
    (i < 127)%nat /\
    (forall j, (j < 127)%nat -> diffAt pitchFrequency 445 i <= diffAt pitchFrequency 445 j) /\
    (forall j, (j < i)%nat -> diffAt pitchFrequency 445 i < diffAt pitchFrequency 445 j).
Proof.
  apply (find_nearest_on_sorted_table pitchFrequency 445 450
           pitchFrequency_sorted); [cbn; lia | reflexivity].
Defined.

(** The returned note is monotone in lowPitch on an ascending table (X2). *)
Theorem find_monotone_on_sorted_table : forall t l1 l2 h1 h2,
  sorted_table t -> (127 <= length t)%nat -> l1 <= l2 ->
  Z.abs (l1 - nth 0 t 0) < 32000 -> Z.abs (l2 - nth 0 t 0) < 32000 ->
  findMidiNoteFromPitches t l1 h1 <= findMidiNoteFromPitches t l2 h2.
Proof.
  intros t l1 l2 h1 h2 Hs Hlen Hl H1 H2.
  destruct (first_nearest_of_sorted t l1 h1 Hs Hlen H1) as (i1 & -> & F1).
  destruct (first_nearest_of_sorted t l2 h2 Hs Hlen H2) as (i2 & -> & F2).
  pose proof (first_nearest_mono t l1 l2 i1 i2 Hs Hlen Hl F1 F2). lia.
Qed.

Lemma find_monotone_on_sorted_table_witness :
  findMidiNoteFromPitches pitchFrequency 300 300 <=
  findMidiNoteFromPitches pitchFrequency 3000 3000.
Proof.
  apply (find_monotone_on_sorted_table pitchFrequency);
    [exact pitchFrequency_sorted | cbn; lia | lia | reflexivity | reflexivity].
Defined.

(** The largest of 0 and the 64 band amplitudes. *)
Definition max_amplitude (spectrum : list Z) : Z :=
  fold_left Z.max (map (fun b => nth b spectrum 0) (seq 0 (Z.to_nat spectrumSize))) 0.

Lemma band_fold_max : forall s l st,
  loudestSample (fold_left (band_body s) l st) =
  fold_left Z.max (map (fun b => nth b s 0) l) (loudestSample st).
Proof.
  intros s l. induction l as [|b l IH]; intros st; [reflexivity|].
  cbn [fold_left map]. rewrite IH. f_equal. unfold band_body.
  destruct (Z.leb_spec (loudestSample st) (nth b s 0)); cbn; lia.
Qed.

Lemma fold_max_gt : forall l a c,
  c < fold_left Z.max l a <-> c < a \/ exists v, In v l /\ c < v.
Proof.
  induction l as [|v l IH]; intros a c; cbn [fold_left].
  - split; [left; assumption | intros [H | (v & [] & _)]; assumption].
  - rewrite IH. split.
    + intros [H | (w & Hw & H)].
      * destruct (Z.max_spec a v) as [[_ E] | [_ E]]; rewrite E in H;
          [right; exists v; split; [left; reflexivity | assumption] | left; assumption].
      * right. exists w. split; [right; assumption | assumption].
    + intros [H | (w & [<- | Hw] & H)].
      * left. lia.
      * left. lia.
      * right. exists w. split; assumption.
Qed.

Lemma fold_max_ge : forall l a v, In v l -> v <= fold_left Z.max l a.
Proof.
  induction l as [|w l IH]; intros a v Hv; [destruct Hv|].
  cbn [fold_left]. destruct Hv as [<- | Hv]; [|apply IH; assumption].
  assert (forall l a, a <= fold_left Z.max l a) as Hmono.
  { induction l0 as [|u l0 IH0]; intros a0; cbn; [lia|].
    specialize (IH0 (Z.max a0 u)). lia. }
  specialize (Hmono l (Z.max a w)). lia.
Qed.

Lemma loop_report_some : forall t s r,
  loop_report t s = Some r ->
  threshold < loudestSample (loudest_band s) /\
  r = (freqLow (loudest_band s), freqHigh (loudest_band s),
       loudestSample (loudest_band s),
       closestNote t (freqLow (loudest_band s)) (freqHigh (loudest_band s))).
Proof.
  intros t s r. unfold loop_report.
  destruct (threshold <? _) eqn:E; intros H; [|discriminate].
  apply (f_equal (fun o => match o with Some v => v | None => r end)) in H.
  cbv beta iota in H. split; [apply Z.ltb_lt; exact E | symmetry; exact H].
Qed.

Lemma loudest_band_cases : forall s,
  loudest_band s = band_init \/
  exists b, (b < 64)%nat /\
    loudest_band s = mk_band (nth b s 0) (band_low (Z.of_nat b)) (band_high (Z.of_nat b)).
Proof.
  intros s. unfold loudest_band. apply band_fold_inv; [left; reflexivity|].
  intros b Hb. right. exists b. split; [|reflexivity].
  apply in_seq in Hb. change (Z.to_nat spectrumSize) with 64%nat in Hb. lia.
Qed.

(** The loudest amplitude [loop] finds is the maximum of 0 and the 64 band
    amplitudes (X3). *)
Theorem loudestSample_is_max : forall spectrum,
  loudestSample (loudest_band spectrum) = max_amplitude spectrum.
Proof. intros s. unfold loudest_band, max_amplitude. apply band_fold_max. Qed.

(** [loop] reports a line exactly when some band is louder than the
    threshold 150000 (X4). *)
Theorem loop_reports_iff_band_above_threshold : forall t spectrum,
  loop_report t spectrum <> None <->
  exists b, (b < 64)%nat /\ threshold < nth b spectrum 0.
Proof.
  intros t s. unfold loop_report, loudest_band. cbv zeta.
  rewrite band_fold_max. cbn [loudestSample band_init].
  change (Z.to_nat spectrumSize) with 64%nat.
  destruct (threshold <? _) eqn:E.
  - apply Z.ltb_lt in E. split; [intros _ | intros _; discriminate].
    apply fold_max_gt in E as [E | (v & Hv & E)]; [unfold threshold in E; lia|].
    apply in_map_iff in Hv as (b & <- & Hb). apply in_seq in Hb.
    exists b. split; [lia | assumption].
  - apply Z.ltb_ge in E. split; [intros H; exfalso; apply H; reflexivity|].
    intros (b & Hb & Hgt). exfalso.
    assert (nth b s 0 <= fold_left Z.max (map (fun b => nth b s 0) (seq 0 64)) 0).
    { apply fold_max_ge. apply (in_map (fun b => nth b s 0)). apply in_seq. lia. }
    lia.
Qed.

Lemma report_names_band : forall t spectrum fl fh a n,
  loop_report t spectrum = Some (fl, fh, a, n) ->
  exists b, (b < 64)%nat /\
    fl = band_low (Z.of_nat b) /\ fh = band_high (Z.of_nat b) /\
    a = nth b spectrum 0 /\
    (forall b', (b' < 64)%nat -> nth b' spectrum 0 <= a) /\
    n = closestNote t fl fh.
Proof.
  intros t s fl fh a n H. apply loop_report_some in H as [Hth Hr].
  assert (Hmax : forall b', (b' < 64)%nat -> nth b' s 0 <= loudestSample (loudest_band s)).
  { intros b' Hb'. unfold loudest_band. rewrite band_fold_max.
    apply fold_max_ge. apply (in_map (fun b => nth b s 0)). apply in_seq.
    change (Z.to_nat spectrumSize) with 64%nat. lia. }
  destruct (loudest_band_cases s) as [E | (b & Hb & E)];
    rewrite E in Hth, Hr, Hmax; cbn [loudestSample freqLow freqHigh] in *.
  - unfold band_init, threshold in Hth. cbn in Hth. lia.
  - injection Hr as -> -> -> ->. exists b. repeat split; auto.
Qed.

(** A reported line names a band [b < 64]: its edges, its amplitude, which
    no band exceeds, and the note computed from those edges (X5). *)
Theorem loop_report_band : forall t spectrum fl fh a n,
  loop_report t spectrum = Some (fl, fh, a, n) ->
  exists b, (b < 64)%nat /\
    fl = band_low (Z.of_nat b) /\ fh = band_high (Z.of_nat b) /\
    a = nth b spectrum 0 /\
    (forall b', (b' < 64)%nat -> nth b' spectrum 0 <= a) /\
    n = closestNote t fl fh.
Proof.
  intros t s fl fh a n H. exact (report_names_band t s fl fh a n H).
Qed.

Lemma loop_report_band_witness :
  exists b, (b < 64)%nat /\
    band_low 5 = band_low (Z.of_nat b) /\ band_high 5 = band_high (Z.of_nat b) /\
    200000 = nth b (repeat 0 5%nat ++ [200000]) 0 /\
    (forall b', (b' < 64)%nat -> nth b' (repeat 0 5%nat ++ [200000]) 0 <= 200000) /\
    64 = closestNote pitchFrequency (band_low 5) (band_high 5).
Proof.
  apply (loop_report_band pitchFrequency (repeat 0 5%nat ++ [200000])).
  vm_compute. reflexivity.
Defined.

(** The [int] the call receives for a band's low edge. *)
Lemma band_low_trunc : forall b,
  float_to_int (band_low (Z.of_nat b)) = Z.of_nat b * 8400 / 128.
Proof.
  intros b. unfold float_to_int, band_low, sampleRate, fftSize.
  cbn [Qnum Qden Qdiv Qmult Qinv inject_Z].
  rewrite Z.mul_1_r. apply Z.quot_div_nonneg; lia.
Qed.

(** On an ascending table starting in [[0, 32000)], the note [loop] reports
    is the first index whose entry is closest to the truncated low edge of
    the loudest band (X6). *)
Theorem loop_note_nearest : forall t spectrum fl fh a n,
  sorted_table t -> (127 <= length t)%nat -> 0 <= nth 0 t 0 < 32000 ->
  loop_report t spectrum = Some (fl, fh, a, n) ->
  exists i, n = Z.of_nat i /\ first_nearest t (float_to_int fl) i.
Proof.
  intros t s fl fh a n Hs Hlen Ht0 H.
  apply report_names_band in H as (b & Hb & -> & -> & _ & _ & ->).
  unfold closestNote.
  destruct (first_nearest_of_sorted t (float_to_int (band_low (Z.of_nat b)))
              (float_to_int (band_high (Z.of_nat b))) Hs Hlen) as (i & E & F).
  - pose proof (band_low_int b Hb). lia.
  - exists i. split; assumption.
Qed.

Lemma loop_note_nearest_witness :
  exists i, 64 = Z.of_nat i /\
    first_nearest pitchFrequency (float_to_int (band_low 5)) i.
Proof.
  apply (loop_note_nearest pitchFrequency (repeat 0 5%nat ++ [200000])
           (band_low 5) (band_high 5) 200000);
    [exact pitchFrequency_sorted | cbn; lia | cbn; lia | vm_compute; reflexivity].
Defined.

(** On such a table, a louder band higher up the spectrum never gives a
    lower note: the note is monotone in the band index (X7). *)
Theorem band_note_monotone : forall t b1 b2 h1 h2,
  sorted_table t -> (127 <= length t)%nat -> 0 <= nth 0 t 0 < 32000 ->
  (b1 <= b2 < 64)%nat ->
  closestNote t (band_low (Z.of_nat b1)) h1 <= closestNote t (band_low (Z.of_nat b2)) h2.
Proof.
  intros t b1 b2 h1 h2 Hs Hlen Ht0 Hb. unfold closestNote.
  pose proof (band_low_int b1 ltac:(lia)). pose proof (band_low_int b2 ltac:(lia)).
  destruct (first_nearest_of_sorted t (float_to_int (band_low (Z.of_nat b1)))
              (float_to_int h1) Hs Hlen ltac:(lia)) as (i1 & -> & F1).
  destruct (first_nearest_of_sorted t (float_to_int (band_low (Z.of_nat b2)))
              (float_to_int h2) Hs Hlen ltac:(lia)) as (i2 & -> & F2).
  assert (float_to_int (band_low (Z.of_nat b1)) <= float_to_int (band_low (Z.of_nat b2))).
  { rewrite !band_low_trunc. apply Z.div_le_mono; lia. }
  pose proof (first_nearest_mono t _ _ i1 i2 Hs Hlen H1 F1 F2). lia.
Qed.

Lemma band_note_monotone_witness :
  closestNote pitchFrequency (band_low (Z.of_nat 3)) 0 <=
  closestNote pitchFrequency (band_low (Z.of_nat 40)) 0.
Proof.
  apply (band_note_monotone pitchFrequency 3 40);
    [exact pitchFrequency_sorted | cbn; lia | cbn; lia | lia].
Defined.

(** [setup] prints the 64 bands [loop] works with: each 65.625 Hz wide,
    consecutive bands sharing an edge, from 0 Hz up to 4200 Hz, half the
    sample rate (X8). *)
Theorem setup_bands_tile :
  snd (setup true true) = true /\
  (forall b, (b < 64)%nat ->
     In (Band (band_low (Z.of_nat b)) (band_high (Z.of_nat b))) (fst (setup true true)) /\
     band_high (Z.of_nat b) - band_low (Z.of_nat b) == 525 # 8) /\
  (forall b, (b < 63)%nat -> band_high (Z.of_nat b) == band_low (Z.of_nat (S b))) /\
  band_low 0 == 0 /\ band_high 63 == inject_Z sampleRate / 2.
Proof.
  split; [reflexivity|]. split; [|split; [|split]].
  - intros b Hb. split.
    + cbn [setup negb fst]. right. apply in_or_app. left.
      apply (in_map (fun b => Band (band_low (Z.of_nat b)) (band_high (Z.of_nat b)))).
      apply in_seq. change (Z.to_nat spectrumSize) with 64%nat. lia.
    + unfold band_low, band_high, sampleRate, fftSize, Qeq.
      cbn [Qnum Qden Qminus Qplus Qopp Qdiv Qmult Qinv inject_Z]. lia.
  - intros b _. unfold band_low, band_high. rewrite Nat2Z.inj_succ.
    reflexivity.
  - reflexivity.
  - reflexivity.
Qed.

(** Every band [loop] reports is one of the lines [setup] printed (X9). *)
Theorem loop_band_printed_by_setup : forall t spectrum fl fh a n,
  loop_report t spectrum = Some (fl, fh, a, n) ->
  In (Band fl fh) (fst (setup true true)).
Proof.
  intros t s fl fh a n H.
  apply report_names_band in H as (b & Hb & -> & -> & _).
  cbn [setup negb fst]. right. apply in_or_app. left.
  apply (in_map (fun b => Band (band_low (Z.of_nat b)) (band_high (Z.of_nat b)))).
  apply in_seq. change (Z.to_nat spectrumSize) with 64%nat. lia.
Qed.

Lemma loop_band_printed_by_setup_witness :
  In (Band (band_low 5) (band_high 5)) (fst (setup true true)).
Proof.
  apply (loop_band_printed_by_setup pitchFrequency (repeat 0 5%nat ++ [200000])
           (band_low 5) (band_high 5) 200000 64).
  vm_compute. reflexivity.
Defined.

(** ** The running-best scan against the code on ascending tables *)



(** On an ascending table a later entry whose difference equals an earlier
    entry's never becomes the candidate. *)
Lemma later_equal_not_recorded : forall t l h i j,
  sorted_table t -> (127 <= length t)%nat -> (i < j < 127)%nat ->
  diffAt t l i = diffAt t l j ->
  desiredMidiNote (Nat.iter (S j) (scan_body t l h) scan_init) <> Z.of_nat j.
Proof.
  intros t l h i j Hs Hlen Hij Heq. rewrite recorded_iff.
  destruct j as [|j]; [lia|]. unfold drop, prevDiff.
  assert (nth i t 0 <= nth j t 0) by (apply Hs; lia).
  assert (nth j t 0 <= nth (S j) t 0) by (apply Hs; lia).
  intros Hlt. apply Z.ltb_lt in Hlt. unfold diffAt in *. lia.
Qed.



(** C2: on an ascending table that starts strictly increasing, with
    non-negative entries up to 32000 (the MIDIUSB pitch table), when entries
    [i < j] are equally and most closely matched, the result is the first
    index of minimal difference, so at most [i], and entry [j] is never
    recorded: an equal difference does not overwrite the earlier candidate. *)
Theorem find_tie_first_index_on_sorted : forall t l h i j,
  sorted_table t -> (127 <= length t)%nat ->
  0 <= nth 0 t 0 < nth 1 t 0 -> nth 126 t 0 <= 32000 ->
  (i < j < 127)%nat -> diffAt t l i = diffAt t l j ->
  (forall k, (k < 127)%nat -> diffAt t l i <= diffAt t l k) ->
  exists m, findMidiNoteFromPitches t l h = Z.of_nat m /\ (m <= i)%nat /\
    first_nearest t l m /\
    desiredMidiNote (Nat.iter (S j) (scan_body t l h) scan_init) <> Z.of_nat j.
Proof.
  intros t l h i j Hs Hlen Ht01 Ht126 Hij Heq Hmin.
  rewrite find_last_drop.
  destruct (last_drop_spec t l 127) as [[_ H2] | (r & Hr & E & Hd & Hafter)].
  - exfalso.
    assert (H0 : diffAt t l 0 >= 32000).
    { specialize (H2 0%nat ltac:(lia)). unfold drop, prevDiff in H2.
      apply Z.ltb_ge in H2. lia. }
    assert (Hj0 : diffAt t l 0 <= diffAt t l j).
    { replace j with (0 + j)%nat by lia. apply no_drop_after; [|lia].
      intros k Hk. apply H2. lia. }
    assert (nth 1 t 0 <= nth j t 0) by (apply Hs; lia).
    assert (nth j t 0 <= nth 126 t 0) by (apply Hs; lia).
    specialize (Hmin 0%nat ltac:(lia)).
    unfold diffAt in *. lia.
  - assert (Fr : first_nearest t l r).
    { split; [exact Hr|]. split.
      - intros k Hk. destruct (Nat.lt_ge_cases k r) as [Hkr | Hkr].
        + pose proof (drop_beats_earlier t l r Hs Hlen Hr Hd k Hkr). lia.
        + replace k with (r + (k - r))%nat by lia.
          apply no_drop_after; [exact Hafter | lia].
      - apply drop_beats_earlier; assumption. }
    exists r. split; [exact E|]. split.
    + destruct (Nat.le_gt_cases r i) as [|Hlt]; [assumption|].
      pose proof (drop_beats_earlier t l r Hs Hlen Hr Hd i Hlt).
      specialize (Hmin r Hr). lia.
    + split; [exact Fr|]. apply (later_equal_not_recorded t l h i j); assumption.
Qed.

Lemma find_tie_first_index_on_sorted_witness :
  exists m, findMidiNoteFromPitches pitchFrequency 9 9 = Z.of_nat m /\ (m <= 1)%nat /\
    first_nearest pitchFrequency 9 m /\
    desiredMidiNote (Nat.iter 3 (scan_body pitchFrequency 9 9) scan_init) <> Z.of_nat 2.
Proof.
  apply (find_tie_first_index_on_sorted pitchFrequency 9 9 1 2);
    [exact pitchFrequency_sorted | cbn; lia | cbn; lia | cbn; lia | lia
    | reflexivity | intros k _; unfold diffAt; cbn; lia].
Defined.
